(** * Connection-lifecycle telemetry of the swarm, and the QUIC transport options

    A shallow embedding of [p2p/net/swarm/swarm_metrics.go] (bucket generator,
    connection-state tagger, measure and view registry, event recorders) and
    of the functional options of the QUIC transport ([config.apply] and the
    three options), with the properties the specification states about them.

    Go's [float64] is IEEE 754 binary64.  It is modelled by the Standard
    Library's [spec_float] at precision 53 and maximal exponent 1024, with
    the library's own multiplication and comparison, so that overflow to
    infinity, subnormal numbers and NaN behave as they do in the program. *)

From Stdlib Require Import ZArith QArith Qpower Lia Bool.
From Stdlib Require Import Floats.SpecFloat.
From stdpp Require Import base option list sorting strings gmap.

Local Open Scope Z_scope.

(** ** IEEE 754 binary64 *)

Module F64.

Definition prec : Z := 53.
Definition emax : Z := 1024.

Definition float64 : Type := spec_float.

(** The values of the machine type: canonical mantissa and bounded exponent. *)
Definition valid (x : float64) : bool := valid_binary prec emax x.

Definition mul (x y : float64) : float64 := SFmul prec emax x y.
Definition ltb (x y : float64) : bool := SFltb x y.

(** Conversion of an integer ([float64(n)], and the typing of an untyped
    integer constant at [float64]): round to nearest, ties to even. *)
Definition of_Z (n : Z) : float64 := binary_normalize prec emax n 0 false.

Definition zero : float64 := of_Z 0.
Definition two : float64 := of_Z 2.
Definition pinf : float64 := S754_infinity false.

Definition is_finite (x : float64) : bool :=
  match x with
  | S754_zero _ | S754_finite _ _ _ => true
  | _ => false
  end.

(** The real number a finite value denotes (0 for infinities and NaN). *)
Definition value (x : float64) : Q :=
  match x with
  | S754_finite s m e =>
      ((if s then -1 else 1) * inject_Z (Zpos m) * Qpower 2 e)%Q
  | _ => 0%Q
  end.

(** Binary order of magnitude of a finite non-zero value. *)
Definition rank (x : float64) : Z :=
  match x with
  | S754_finite _ m e => Zpos (digits2_pos m) + e
  | _ => 0
  end.

End F64.

Abbreviation float64 := F64.float64.

(** Go's [error] values, identified by their message. *)
Definition error : Type := string.

(** ** Package [time] of the Go library

    Durations and their conversion to milliseconds, as the Go library
    defines them. *)

Module time.

(** A [Duration] is a signed 64-bit count of nanoseconds. *)
Definition Duration : Type := Z.

Definition Nanosecond : Duration := 1.
Definition Microsecond : Duration := 1000 * Nanosecond.
Definition Millisecond : Duration := 1000 * Microsecond.
Definition Second : Duration := 1000 * Millisecond.
Definition Minute : Duration := 60 * Second.
Definition Hour : Duration := 60 * Minute.

(** [int64(d) / 1e6]: integer division, truncating toward zero. *)
Definition Milliseconds (d : Duration) : Z := Z.quot d 1000000.

End time.

(** ** Package [network]: what a connection reports *)

Module network.

(** Modelled from the spec: the declaration of [network.Direction] is not
    part of the sources; it is "a Direction enumeration with at least the
    values outbound, inbound, unknown".  [DirOther] stands for any further
    value of the underlying integer type. *)
Inductive Direction : Type :=
  | DirUnknown
  | DirInbound
  | DirOutbound
  | DirOther (n : Z).

(** Modelled from the spec: the declaration of [network.ConnectionState] is
    not part of the sources; it is "a snapshot with fields transport
    identifier, security protocol identifier, stream multiplexer identifier",
    each a string, empty when not applicable. *)
Record ConnectionState : Type := {
  StreamMultiplexer : string;
  Security : string;
  Transport : string
}.

End network.

(** ** The metrics engine the recorders call (OpenCensus)

    The engine is a library, not part of the sources.  Only the data the
    program hands to it is modelled, as the library documents it: measures,
    measurements, tag keys, tag mutators, aggregations and views. *)

Module stats.

Definition UnitDimensionless : string := "1".
Definition UnitMilliseconds : string := "ms".

Record Measure : Type := Int64 {
  Name : string;
  Description : string;
  Unit : string
}.

(** [m.M(v)]: one measurement of [v] for the measure [m]. *)
Record Measurement : Type := M {
  measure : Measure;
  observed : Z
}.

End stats.

Module tag.

Record Key : Type := { Name : string }.

(** Key names are non-empty, at most 255 bytes long and printable ASCII. *)
Definition checkKeyName (name : string) : bool :=
  (0 <? String.length name)%nat && (String.length name <=? 255)%nat &&
  forallb (fun c => (32 <=? Ascii.nat_of_ascii c)%nat && (Ascii.nat_of_ascii c <=? 126)%nat)
          (String.list_ascii_of_string name).

Definition NewKey (name : string) : Key * option error :=
  if checkKeyName name then ({| Name := name |}, None)
  else ({| Name := EmptyString |}, Some "invalid key name"%string).

(** The one mutator the recorders use: set the key to the value, whether or
    not the key is already present. *)
Inductive Mutator : Type :=
  | Upsert (k : Key) (v : string).

(** The tag set a sequence of mutators denotes: they are applied in order
    to the empty tag set of the background context. *)
Definition tagSet (ms : list Mutator) : gmap string string :=
  foldl (fun m mu => match mu with Upsert k v => <[Name k := v]> m end) ∅ ms.

End tag.

Module view.

Inductive Aggregation : Type :=
  | Sum
  | Distribution (bounds : list float64).

(** The field [Aggregation] of the Go struct is [Aggregation_] here, the
    name being taken by its type. *)
Record View : Type := {
  Measure : stats.Measure;
  Aggregation_ : Aggregation;
  TagKeys : list tag.Key
}.

End view.

(** ** Package [swarm]: [swarm_metrics.go] *)

Module swarm.

Definition metricNamespace : string := "swarm/".

Definition connsOpened : stats.Measure :=
  stats.Int64 (String.append metricNamespace "connections_opened")
              "Connections Opened" stats.UnitDimensionless.
Definition connsClosed : stats.Measure :=
  stats.Int64 (String.append metricNamespace "connections_closed")
              "Connections Closed" stats.UnitDimensionless.
Definition connDuration : stats.Measure :=
  stats.Int64 (String.append metricNamespace "connection_duration")
              "Duration of a Connection" stats.UnitMilliseconds.
Definition connHandshakeLatency : stats.Measure :=
  stats.Int64 (String.append metricNamespace "handshake_latency")
              "Duration of the libp2p handshake" stats.UnitMilliseconds.

(** [directionTag, _ = tag.NewKey("dir")], and likewise for the others: the
    error is dropped. *)
Definition directionTag : tag.Key := fst (tag.NewKey "dir").
Definition transportTag : tag.Key := fst (tag.NewKey "transport").
Definition securityTag : tag.Key := fst (tag.NewKey "security").
Definition muxerTag : tag.Key := fst (tag.NewKey "muxer").

(** The loop [for d := min; d < 2*max; d *= 2 { v = append(v, d) }], with
    [d] and [v] as loop state.  [fuel] bounds the number of evaluations of
    the loop condition; [None] means that the bound was reached with the
    condition still true. *)
Fixpoint exponentialDistribution_loop
    (fuel : nat) (d max : float64) (v : list float64) : option (list float64) :=
  match fuel with
  | O => None
  | S fuel' =>
      if F64.ltb d (F64.mul F64.two max)
      then exponentialDistribution_loop fuel' (F64.mul d F64.two) max (v ++ [d])
      else Some v
  end.

(** From the least positive value, [2^-1074], 2098 doublings reach the
    largest power of two, [2^1023], and one more overflows: no run of the
    loop from a positive value evaluates its condition more than 2099
    times (see [exponentialDistribution_loop_fuel]). *)
Definition loopBound : nat := 2100.

Definition exponentialDistribution (min max : float64) : option (list float64) :=
  exponentialDistribution_loop loopBound min max [].

(** The [k]-th term of the sequence [min, 2·min, 4·min, …] as the loop
    computes it. *)
Definition doubled (k : nat) (min : float64) : float64 :=
  Nat.iter k (fun d => F64.mul d F64.two) min.

(** What holds of the [i]-th term while the loop keeps it: it is below
    [2*max], and it is a positive finite value of the machine type that
    denotes exactly [2^i] times what [min] denotes. *)
Definition kept (min max : float64) (i : nat) : Prop :=
  F64.ltb (doubled i min) (F64.mul F64.two max) = true /\
  F64.valid (doubled i min) = true /\
  F64.ltb F64.zero (doubled i min) = true /\
  F64.is_finite (doubled i min) = true /\
  (F64.value (doubled i min) == inject_Z (2 ^ Z.of_nat i) * F64.value min)%Q.

Definition connDurationMilliseconds : option (list float64) :=
  exponentialDistribution (F64.of_Z 250)
    (F64.of_Z (time.Milliseconds (7 * 24 * time.Hour))).
Definition handshakeLatencyMilliseconds : option (list float64) :=
  exponentialDistribution (F64.of_Z 1) (F64.of_Z (60 * 1000)).

Definition connOpenView : view.View :=
  {| view.Measure := connsOpened;
     view.Aggregation_ := view.Sum;
     view.TagKeys := [directionTag; transportTag; securityTag; muxerTag] |}.
Definition connClosedView : view.View :=
  {| view.Measure := connsClosed;
     view.Aggregation_ := view.Sum;
     view.TagKeys := [directionTag; transportTag; securityTag; muxerTag] |}.
(** The two distribution views exist once their bucket boundaries have been
    computed. *)
Definition connDurationView : option view.View :=
  bounds ← connDurationMilliseconds;
  Some {| view.Measure := connDuration;
          view.Aggregation_ := view.Distribution bounds;
          view.TagKeys := [directionTag; transportTag; securityTag; muxerTag] |}.
Definition connHandshakeLatencyView : option view.View :=
  bounds ← handshakeLatencyMilliseconds;
  Some {| view.Measure := connHandshakeLatency;
          view.Aggregation_ := view.Distribution bounds;
          view.TagKeys := [transportTag; securityTag; muxerTag] |}.

Definition DefaultViews : option (list view.View) :=
  durationView ← connDurationView;
  latencyView ← connHandshakeLatencyView;
  Some [connOpenView; connClosedView; durationView; latencyView].

Definition getDirection (dir : network.Direction) : string :=
  match dir with
  | network.DirOutbound => "outbound"
  | network.DirInbound => "inbound"
  | _ => "unknown"
  end.

Definition appendConnectionState
    (tags : list tag.Mutator) (cs : network.ConnectionState) : list tag.Mutator :=
  let tags :=
    if String.eqb (network.Transport cs) ""
    then tags ++ [tag.Upsert transportTag "unknown"]
    else tags ++ [tag.Upsert transportTag (network.Transport cs)] in
  let tags :=
    if negb (String.eqb (network.Security cs) "")
    then tags ++ [tag.Upsert securityTag (network.Security cs)]
    else tags in
  let tags :=
    if negb (String.eqb (network.StreamMultiplexer cs) "")
    then tags ++ [tag.Upsert muxerTag (network.StreamMultiplexer cs)]
    else tags in
  tags.

(** The recorders call [stats.RecordWithTags(context.Background(), tags, m)]
    and drop the error it returns.  The engine is a parameter: any state
    type, and any function from the submitted mutators and measurements and
    the state before to the state after and the error. *)
Section Recorders.

Context {Engine : Type}.
Variable RecordWithTags :
  list tag.Mutator -> list stats.Measurement -> Engine -> Engine * option error.

Definition recordConnectionOpened
    (dir : network.Direction) (cs : network.ConnectionState) (σ : Engine) : Engine :=
  let tags := [] in
  let tags := tags ++ [tag.Upsert directionTag (getDirection dir)] in
  let tags := appendConnectionState tags cs in
  let '(σ, _) := RecordWithTags tags [stats.M connsOpened 1] σ in
  σ.

Definition recordConnectionClosed
    (dir : network.Direction) (cs : network.ConnectionState) (σ : Engine) : Engine :=
  let tags := [] in
  let tags := tags ++ [tag.Upsert directionTag (getDirection dir)] in
  let tags := appendConnectionState tags cs in
  let '(σ, _) := RecordWithTags tags [stats.M connsClosed 1] σ in
  σ.

Definition recordConnectionDuration
    (dir : network.Direction) (t : time.Duration) (cs : network.ConnectionState)
    (σ : Engine) : Engine :=
  let tags := [] in
  let tags := tags ++ [tag.Upsert directionTag (getDirection dir)] in
  let tags := appendConnectionState tags cs in
  let m := stats.M connDuration (time.Milliseconds t) in
  let '(σ, _) := RecordWithTags tags [m] σ in
  σ.

Definition recordHandshakeLatency
    (t : time.Duration) (cs : network.ConnectionState) (σ : Engine) : Engine :=
  let tags := [] in
  let tags := appendConnectionState tags cs in
  let m := stats.M connHandshakeLatency (time.Milliseconds t) in
  let '(σ, _) := RecordWithTags tags [m] σ in
  σ.

End Recorders.

End swarm.

(** ** A stub engine

    Not part of the program: an engine that only keeps the submissions it
    receives, in order, and answers each with the error [reply] chooses.
    It makes "exactly one observation" a statement about a list. *)
Record Submission : Type := {
  sub_tags : list tag.Mutator;
  sub_measurements : list stats.Measurement
}.

Definition logEngine (reply : Submission -> option error)
    (tags : list tag.Mutator) (ms : list stats.Measurement)
    (log : list Submission) : list Submission * option error :=
  let s := {| sub_tags := tags; sub_measurements := ms |} in
  (log ++ [s], reply s).

(** The key and the value a mutator sets. *)
Definition mutatorKey (mu : tag.Mutator) : tag.Key :=
  match mu with tag.Upsert k _ => k end.
Definition mutatorValue (mu : tag.Mutator) : string :=
  match mu with tag.Upsert _ v => v end.

(** One call of a recorder, seen from the stub engine and against a view:
    the log grows by one submission, which holds one measurement, of the
    measure of the view; its keys are among the keys the view declares, in
    the order the view declares them; no value is empty; and no key is set
    twice (the tag set has as many entries as there are mutators). *)
Definition submitsFor (v : view.View) (log log' : list Submission) : Prop :=
  exists (s : Submission) (m : stats.Measurement),
    log' = log ++ [s] /\
    sub_measurements s = [m] /\
    stats.measure m = view.Measure v /\
    sublist (map mutatorKey (sub_tags s)) (view.TagKeys v) /\
    Forall (fun mu => mutatorValue mu <> ""%string) (sub_tags s) /\
    size (tag.tagSet (sub_tags s)) = length (sub_tags s).

(** ** Package [libp2pquic]: the options of the QUIC transport *)

Module libp2pquic.

Record config : Type := {
  disableReuseport : bool;
  disableDraft29 : bool;
  metrics : bool
}.

(** [type Option func(opts *config) error]: an option may update the
    configuration it is given and may fail. *)
Definition Option : Type := config -> config * option error.

Fixpoint apply (opts : list Option) (cfg : config) : config * option error :=
  match opts with
  | [] => (cfg, None)
  | opt :: opts' =>
      let '(cfg, err) := opt cfg in
      match err with
      | Some e => (cfg, Some e)
      | None => apply opts' cfg
      end
  end.

Definition DisableReuseport : Option :=
  fun cfg =>
    ({| disableReuseport := true;
        disableDraft29 := disableDraft29 cfg;
        metrics := metrics cfg |}, None).

Definition DisableDraft29 : Option :=
  fun cfg =>
    ({| disableReuseport := disableReuseport cfg;
        disableDraft29 := true;
        metrics := metrics cfg |}, None).

Definition WithMetrics : Option :=
  fun cfg =>
    ({| disableReuseport := disableReuseport cfg;
        disableDraft29 := disableDraft29 cfg;
        metrics := true |}, None).

(** The configuration after every option of [opts] has run in order, each on
    the configuration the previous one left (errors aside). *)
Definition applied (opts : list Option) (cfg : config) : config :=
  foldl (fun c opt => fst (opt c)) cfg opts.

End libp2pquic.

(** * Properties *)

(** ** Doubling in binary64 is exact *)

Section F64Doubling.

Import F64.

Local Abbreviation two52 := 4503599627370496%positive.

Lemma F64_two_eq : two = S754_finite false two52 (-51).
Proof. reflexivity. Qed.

Lemma pos_mul_two52 (m : positive) : (m * two52)%positive = Pos.iter xO m 52.
Proof. rewrite Pos.mul_comm. reflexivity. Qed.

Lemma Zdigits2_mul_two52 (m : positive) :
  Zdigits2 (Zpos (m * two52)) = Zpos (digits2_pos m) + 52.
Proof. rewrite pos_mul_two52. simpl. rewrite !Pos2Z.inj_succ. lia. Qed.

(** A finite value is normal (53 significant bits) or subnormal (fewer
    bits, at the least exponent). *)
Lemma F64_valid_finite_inv s m e :
  valid (S754_finite s m e) = true ->
  (Zpos (digits2_pos m) = 53 /\ -1074 <= e <= 971) \/
  (Zpos (digits2_pos m) < 53 /\ e = -1074).
Proof.
  unfold valid, valid_binary, bounded, canonical_mantissa, fexp,
    SpecFloat.emin, prec, emax.
  intros H. apply andb_prop in H as [H1 H2].
  apply Z.eqb_eq in H1. apply Z.leb_le in H2. lia.
Qed.

Lemma F64_valid_finite_intro s m e :
  (Zpos (digits2_pos m) = 53 /\ -1074 <= e <= 971) \/
  (Zpos (digits2_pos m) < 53 /\ e = -1074) ->
  valid (S754_finite s m e) = true.
Proof.
  unfold valid, valid_binary, bounded, canonical_mantissa, fexp,
    SpecFloat.emin, prec, emax.
  intros H. apply andb_true_intro. split; [apply Z.eqb_eq | apply Z.leb_le]; lia.
Qed.

Lemma shr_two52_52 m e :
  shr {| shr_m := Zpos (m * two52); shr_r := false; shr_s := false |} e 52 =
  ({| shr_m := Zpos m; shr_r := false; shr_s := false |}, e + 52).
Proof. rewrite pos_mul_two52. reflexivity. Qed.

Lemma shr_two52_51 m e :
  shr {| shr_m := Zpos (m * two52); shr_r := false; shr_s := false |} e 51 =
  ({| shr_m := Zpos m~0; shr_r := false; shr_s := false |}, e + 51).
Proof. rewrite pos_mul_two52. reflexivity. Qed.

Local Ltac fexp_lia := unfold fexp, SpecFloat.emin, prec, emax; lia.

(** Rounding the product of a normal mantissa with the mantissa of 2
    drops the 52 zero bits again: nothing is lost. *)
Lemma round_product_normal s m e :
  Zpos (digits2_pos m) = 53 -> -1075 <= e ->
  binary_round_aux prec emax s (Zpos (m * two52)) (e + -51) loc_Exact =
    if e + 1 <=? 971 then S754_finite s m (e + 1) else S754_infinity s.
Proof.
  intros Hd He. unfold binary_round_aux, shr_fexp.
  rewrite Zdigits2_mul_two52.
  replace (fexp prec emax (Z.pos (digits2_pos m) + 52 + (e + -51)) - (e + -51))
    with 52 by fexp_lia.
  cbn [shr_record_of_loc]. rewrite shr_two52_52.
  cbn [shr_m loc_of_shr_record round_nearest_even Zdigits2].
  replace (fexp prec emax (Z.pos (digits2_pos m) + (e + -51 + 52)) - (e + -51 + 52))
    with 0 by fexp_lia.
  cbn [shr shr_m]. replace (e + -51 + 52) with (e + 1) by lia. reflexivity.
Qed.

Lemma round_product_subnormal s m :
  Zpos (digits2_pos m) < 53 ->
  binary_round_aux prec emax s (Zpos (m * two52)) (-1074 + -51) loc_Exact =
    S754_finite s m~0 (-1074).
Proof.
  intros Hd. unfold binary_round_aux, shr_fexp.
  rewrite Zdigits2_mul_two52.
  replace (fexp prec emax (Z.pos (digits2_pos m) + 52 + (-1074 + -51)) - (-1074 + -51))
    with 51 by fexp_lia.
  cbn [shr_record_of_loc]. rewrite shr_two52_51.
  cbn [shr_m loc_of_shr_record round_nearest_even Zdigits2 digits2_pos].
  replace (fexp prec emax (Z.pos (Pos.succ (digits2_pos m)) + (-1074 + -51 + 51))
           - (-1074 + -51 + 51)) with 0 by fexp_lia.
  reflexivity.
Qed.

(** [d * 2] for a finite non-zero [d]: the exponent goes up by one, or
    the result is infinite, or (subnormal [d]) the mantissa is doubled. *)
Lemma F64_mul_two_r s m e :
  valid (S754_finite s m e) = true ->
  mul (S754_finite s m e) two =
    if Zpos (digits2_pos m) =? 53
    then (if e + 1 <=? 971 then S754_finite s m (e + 1) else S754_infinity s)
    else S754_finite s m~0 e.
Proof.
  intros Hv. apply F64_valid_finite_inv in Hv as [[Hd He]|[Hd ->]].
  - rewrite Hd. cbn [Z.eqb Pos.eqb].
    change (mul (S754_finite s m e) two) with
      (binary_round_aux prec emax (xorb s false) (Zpos (m * two52)) (e + -51) loc_Exact).
    rewrite xorb_false_r. apply round_product_normal; lia.
  - destruct (Z.eqb_spec (Zpos (digits2_pos m)) 53); [lia|].
    change (mul (S754_finite s m (-1074)) two) with
      (binary_round_aux prec emax (xorb s false) (Zpos (m * two52)) (-1074 + -51) loc_Exact).
    rewrite xorb_false_r. apply round_product_subnormal; lia.
Qed.

(** [2 * x] and [x * 2] are the same value, whatever [x] is. *)
Lemma F64_mul_two_comm (x : float64) : mul two x = mul x two.
Proof.
  rewrite F64_two_eq.
  destruct x as [s|s| |s m e]; [destruct s; reflexivity .. | reflexivity |].
  unfold mul. cbn [SFmul]. rewrite Pos.mul_comm, Z.add_comm, xorb_comm. reflexivity.
Qed.

End F64Doubling.

(** ** The order of binary64

    [<] compares signs, then exponents, then mantissas; it is a strict
    order on all values, NaN being below and above nothing. *)

Section F64Order.

Import F64.

Lemma F64_ltb_finite_pos m1 e1 m2 e2 :
  ltb (S754_finite false m1 e1) (S754_finite false m2 e2) = true <->
  e1 < e2 \/ (e1 = e2 /\ (m1 < m2)%positive).
Proof.
  unfold ltb, SFltb, SFcompare.
  change (Pos.compare_cont Eq m1 m2) with (m1 ?= m2)%positive.
  destruct (Z.compare_spec e1 e2), (Pos.compare_spec m1 m2);
    split; intros Hlt; try discriminate; try reflexivity; lia.
Qed.

Lemma F64_ltb_finite_neg m1 e1 m2 e2 :
  ltb (S754_finite true m1 e1) (S754_finite true m2 e2) = true <->
  e2 < e1 \/ (e1 = e2 /\ (m2 < m1)%positive).
Proof.
  unfold ltb, SFltb, SFcompare.
  change (Pos.compare_cont Eq m1 m2) with (m1 ?= m2)%positive.
  destruct (Z.compare_spec e1 e2), (Pos.compare_spec m1 m2);
    split; intros Hlt; try discriminate; try reflexivity; lia.
Qed.

Lemma F64_ltb_trans (a b c : float64) :
  ltb a b = true -> ltb b c = true -> ltb a c = true.
Proof.
  destruct a as [[]|[]| |[] ma ea], b as [[]|[]| |[] mb eb], c as [[]|[]| |[] mc ec];
    try (intros; reflexivity); try (intros; discriminate).
  - rewrite !F64_ltb_finite_neg. lia.
  - rewrite !F64_ltb_finite_pos. lia.
Qed.

Lemma F64_ltb_irrefl (a : float64) : ltb a a = false.
Proof.
  destruct a as [[]|[]| |[] m e]; try reflexivity.
  - apply not_true_is_false. rewrite F64_ltb_finite_neg. lia.
  - apply not_true_is_false. rewrite F64_ltb_finite_pos. lia.
Qed.

Lemma F64_ltb_pinf_l (x : float64) : ltb pinf x = false.
Proof. destruct x as [[]|[]| |[] m e]; reflexivity. Qed.

Lemma F64_pos_inv (x : float64) :
  ltb zero x = true -> x = pinf \/ exists m e, x = S754_finite false m e.
Proof.
  destruct x as [[]|[]| |[] m e]; try discriminate; eauto.
Qed.

End F64Order.

(** ** What one doubling does to a positive value *)

Section F64DoublingPositive.

Import F64.

Lemma F64_rank_bounds s m e :
  valid (S754_finite s m e) = true -> -1073 <= rank (S754_finite s m e) <= 1024.
Proof.
  intros Hv. apply F64_valid_finite_inv in Hv. cbn [rank].
  pose proof (Pos2Z.is_pos (digits2_pos m)). lia.
Qed.

Lemma F64_double_pos m e :
  valid (S754_finite false m e) = true ->
  mul (S754_finite false m e) two = pinf \/
  exists m' e',
    mul (S754_finite false m e) two = S754_finite false m' e' /\
    valid (S754_finite false m' e') = true /\
    rank (S754_finite false m' e') = rank (S754_finite false m e) + 1 /\
    (value (S754_finite false m' e') == 2 * value (S754_finite false m e))%Q.
Proof.
  intros Hv. rewrite (F64_mul_two_r _ _ _ Hv).
  apply F64_valid_finite_inv in Hv as Hc.
  destruct (Z.eqb_spec (Zpos (digits2_pos m)) 53) as [Hd|Hd].
  - destruct (Z.leb_spec (e + 1) 971) as [He|He]; [right | left; reflexivity].
    exists m, (e + 1). repeat split.
    + apply F64_valid_finite_intro. lia.
    + cbn [rank]. lia.
    + cbn [value]. rewrite Qpower_plus by discriminate.
      change (2 ^ 1)%Q with 2%Q. ring.
  - right. exists (m~0)%positive, e. repeat split.
    + apply F64_valid_finite_intro. cbn [digits2_pos]. rewrite Pos2Z.inj_succ. lia.
    + cbn [rank digits2_pos]. rewrite Pos2Z.inj_succ. lia.
    + cbn [value]. change (Zpos (m~0)%positive) with (2 * Zpos m). rewrite inject_Z_mult.
      change (inject_Z 2) with 2%Q. ring.
Qed.

Lemma F64_ltb_double m e :
  valid (S754_finite false m e) = true ->
  ltb (S754_finite false m e) (mul (S754_finite false m e) two) = true.
Proof.
  intros Hv. rewrite (F64_mul_two_r _ _ _ Hv).
  destruct (Z.eqb_spec (Zpos (digits2_pos m)) 53) as [Hd|Hd].
  - destruct (Z.leb_spec (e + 1) 971) as [He|He]; [|reflexivity].
    apply F64_ltb_finite_pos. lia.
  - apply F64_ltb_finite_pos. lia.
Qed.

End F64DoublingPositive.

(** ** The bucket generator *)

Section BucketGenerator.

Import F64 swarm.

Lemma doubled_S (k : nat) (d : float64) : doubled (S k) d = doubled k (mul d two).
Proof. exact (Nat.iter_succ_r k (fun x => mul x two) d). Qed.

Lemma doubled_terms_S (d : float64) (k : nat) :
  map (fun i => doubled i d) (seq 0 (S k)) =
  d :: map (fun i => doubled i (mul d two)) (seq 0 k).
Proof.
  cbn [seq map]. f_equal. rewrite <- seq_shift, map_map.
  apply map_ext. intros i. apply doubled_S.
Qed.

(** A run of the loop from a positive value [d]: with more fuel than [d]
    can be doubled before it overflows, the loop ends, having appended the
    terms [d, 2d, …] up to the first one that is not below [2*max]. *)
Lemma exponentialDistribution_loop_run (n : nat) :
  forall (d max : float64),
    valid d = true -> ltb zero d = true ->
    d = pinf \/ 1025 - rank d <= Z.of_nat n ->
    exists k : nat,
      (k <= n)%nat /\
      (forall (v : list float64) (fuel : nat), (n < fuel)%nat ->
         exponentialDistribution_loop fuel d max v =
           Some (v ++ map (fun i => doubled i d) (seq 0 k))) /\
      (forall i : nat, (i < k)%nat -> kept d max i) /\
      ltb (doubled k d) (mul two max) = false.
Proof.
  induction n as [|n IH]; intros d max Hv Hpos Hrank.
  - assert (d = pinf) as ->.
    { destruct Hrank as [|Hr]; [assumption|].
      destruct (F64_pos_inv d Hpos) as [|(m & e & ->)]; [assumption|].
      pose proof (F64_rank_bounds _ _ _ Hv). lia. }
    exists 0%nat. split; [lia|]. split; [|split].
    + intros v [|fuel] Hf; [lia|]. cbn [exponentialDistribution_loop].
      rewrite F64_ltb_pinf_l. cbn [seq map]. now rewrite app_nil_r.
    + intros i Hi. lia.
    + apply F64_ltb_pinf_l.
  - destruct (ltb d (mul two max)) eqn:Hcond.
    2:{ exists 0%nat. split; [lia|]. split; [|split].
        - intros v [|fuel] Hf; [lia|]. cbn [exponentialDistribution_loop].
          rewrite Hcond. cbn [seq map]. now rewrite app_nil_r.
        - intros i Hi. lia.
        - exact Hcond. }
    destruct (F64_pos_inv d Hpos) as [->|(m & e & ->)].
    { rewrite F64_ltb_pinf_l in Hcond. discriminate. }
    set (d := S754_finite false m e) in *.
    assert (Hd' : valid (mul d two) = true /\ ltb zero (mul d two) = true /\
                  (mul d two = pinf \/ 1025 - rank (mul d two) <= Z.of_nat n) /\
                  (is_finite (mul d two) = true ->
                   (value (mul d two) == 2 * value d)%Q)).
    { destruct (F64_double_pos m e Hv) as [Hinf|(m' & e' & Heq & Hv' & Hr' & Hval)];
        fold d in Hinf || fold d in Heq, Hr', Hval.
      - rewrite Hinf. split; [reflexivity|]. split; [reflexivity|].
        split; [now left | discriminate].
      - rewrite Heq. split; [exact Hv'|]. split; [reflexivity|].
        split; [|intros _; exact Hval].
        right. rewrite Hr'. destruct Hrank as [|]; [discriminate | lia]. }
    destruct Hd' as (Hv' & Hpos' & Hrank' & Hval').
    destruct (IH (mul d two) max Hv' Hpos' Hrank') as (k & Hk & Hrun & Hkept & Hexit).
    exists (S k). split; [lia|]. split; [|split].
    + intros v [|fuel] Hf; [lia|]. cbn [exponentialDistribution_loop].
      rewrite Hcond, (Hrun _ fuel) by lia.
      rewrite doubled_terms_S, <- app_assoc. reflexivity.
    + intros [|i] Hi.
      * repeat split; try assumption; try reflexivity.
        change (doubled 0 d) with d. change (inject_Z (2 ^ Z.of_nat 0)) with 1%Q.
        now rewrite Qmult_1_l.
      * destruct (Hkept i ltac:(lia)) as (H1 & H2 & H3 & H4 & H5).
        unfold kept. rewrite doubled_S. repeat split; try assumption.
        rewrite H5. rewrite Nat2Z.inj_succ, Z.pow_succ_r by lia.
        rewrite inject_Z_mult. change (inject_Z 2) with 2%Q.
        rewrite Hval'; [ring|].
        destruct (Hkept 0%nat ltac:(lia)) as (_ & _ & _ & H04 & _). exact H04.
    + rewrite doubled_S. exact Hexit.
Qed.

Lemma doubled_succ (k : nat) (d : float64) : doubled (S k) d = mul (doubled k d) two.
Proof. reflexivity. Qed.

(** Every term is a positive value of the machine type (possibly [+Inf]). *)
Lemma doubled_positive (min : float64) :
  valid min = true -> ltb zero min = true ->
  forall j : nat, valid (doubled j min) = true /\ ltb zero (doubled j min) = true.
Proof.
  intros Hv Hpos. induction j as [|j [IHv IHpos]]; [now split|].
  rewrite doubled_succ.
  destruct (F64_pos_inv _ IHpos) as [->|(m & e & Heq)]; [now split|].
  rewrite Heq in *.
  destruct (F64_double_pos m e IHv) as [->|(m' & e' & -> & Hv' & _)]; now split.
Qed.

(** A finite term is below the next one. *)
Lemma doubled_step_lt (min : float64) (j : nat) :
  valid min = true -> ltb zero min = true ->
  is_finite (doubled j min) = true ->
  ltb (doubled j min) (doubled (S j) min) = true.
Proof.
  intros Hv Hpos Hfin. rewrite doubled_succ.
  destruct (doubled_positive min Hv Hpos j) as [Hvj Hposj].
  destruct (F64_pos_inv _ Hposj) as [Heq|(m & e & Heq)]; rewrite Heq in *.
  - discriminate.
  - now apply F64_ltb_double.
Qed.

(** Once a term is not below a bound, no later term is. *)
Lemma doubled_not_below (min c : float64) (k : nat) :
  valid min = true -> ltb zero min = true ->
  ltb (doubled k min) c = false ->
  forall j : nat, (k <= j)%nat -> ltb (doubled j min) c = false.
Proof.
  intros Hv Hpos Hk j Hj. induction Hj as [|j Hj IH]; [exact Hk|].
  rewrite doubled_succ.
  destruct (doubled_positive min Hv Hpos j) as [Hvj Hposj].
  destruct (F64_pos_inv _ Hposj) as [Heq|(m & e & Heq)]; rewrite Heq in *.
  - apply F64_ltb_pinf_l.
  - apply not_true_is_false. intros Hlt.
    rewrite (F64_ltb_trans _ _ _ (F64_ltb_double m e Hvj) Hlt) in IH. discriminate.
Qed.

(** The kept terms are pairwise ordered. *)
Lemma doubled_lt (min : float64) (n : nat) :
  valid min = true -> ltb zero min = true ->
  (forall i : nat, (i < n)%nat -> is_finite (doubled i min) = true) ->
  forall i j : nat, (i < j)%nat -> (j < n)%nat ->
    ltb (doubled i min) (doubled j min) = true.
Proof.
  intros Hv Hpos Hfin i j Hij. induction Hij as [|j Hij IH]; intros Hj.
  - apply doubled_step_lt; auto. apply Hfin. lia.
  - apply F64_ltb_trans with (doubled j min); [apply IH; lia|].
    apply doubled_step_lt; auto. apply Hfin. lia.
Qed.

Lemma doubled_terms_sorted (min : float64) (n : nat) :
  valid min = true -> ltb zero min = true ->
  (forall i : nat, (i < n)%nat -> is_finite (doubled i min) = true) ->
  forall a k : nat, (a + k <= n)%nat ->
    StronglySorted (fun x y => ltb x y = true) (map (fun i => doubled i min) (seq a k)).
Proof.
  intros Hv Hpos Hfin a k. revert a.
  induction k as [|k IH]; intros a Hak; cbn [seq map]; constructor.
  - apply IH. lia.
  - apply Forall_forall. intros x Hx.
    apply list_elem_of_In, in_map_iff in Hx as (j & <- & Hj). apply in_seq in Hj.
    apply (doubled_lt min n); auto; lia.
Qed.

(** From zero the loop never ends when [0 < 2*max]: doubling zero gives
    zero.  (This is why the result is an [option].) *)
Lemma exponentialDistribution_loop_zero (fuel : nat) (max : float64) (v : list float64) :
  ltb zero (mul two max) = true ->
  exponentialDistribution_loop fuel zero max v = None.
Proof.
  intros Hlt. revert v. induction fuel as [|fuel IH]; intros v; [reflexivity|].
  cbn [exponentialDistribution_loop]. rewrite Hlt. apply IH.
Qed.

(** The run of [exponentialDistribution] itself: [loopBound] suffices for
    every positive start value. *)
Lemma exponentialDistribution_loop_fuel (min max : float64) :
  valid min = true -> ltb zero min = true ->
  exists k : nat,
    (forall (v : list float64) (fuel : nat), (loopBound <= fuel)%nat ->
       exponentialDistribution_loop fuel min max v =
         Some (v ++ map (fun i => doubled i min) (seq 0 k))) /\
    (forall i : nat, (i < k)%nat -> kept min max i) /\
    ltb (doubled k min) (mul two max) = false.
Proof.
  intros Hv Hpos.
  destruct (exponentialDistribution_loop_run 2099 min max Hv Hpos)
    as (k & _ & Hrun & Hkept & Hexit).
  - destruct (F64_pos_inv _ Hpos) as [->|(m & e & ->)]; [now left|right].
    pose proof (F64_rank_bounds _ _ _ Hv). lia.
  - exists k. split; [|now split].
    intros v fuel Hf. apply Hrun. unfold loopBound in Hf. lia.
Qed.

(** C1. For every positive [min] (and every [max]),
    [exponentialDistribution min max] returns exactly the terms
    [min, 2·min, 4·min, …] that are strictly below [2·max], in that order:
    there is an [n] such that the result is the list of the first [n]
    terms, each of them is below [2·max], finite and denotes exactly
    [2^k·min], and no term from the [n]-th on is below [2·max].  In
    particular [exponentialDistribution 250 500 = [250; 500]]. *)
Theorem exponentialDistribution_terms (min max : float64) :
  valid min = true -> ltb zero min = true ->
  (exists n : nat,
     exponentialDistribution min max = Some (map (fun k => doubled k min) (seq 0 n)) /\
     (forall k : nat, (k < n)%nat ->
        ltb (doubled k min) (mul two max) = true /\
        is_finite (doubled k min) = true /\
        (value (doubled k min) == inject_Z (2 ^ Z.of_nat k) * value min)%Q) /\
     (forall k : nat, (n <= k)%nat -> ltb (doubled k min) (mul two max) = false)) /\
  exponentialDistribution (of_Z 250) (of_Z 500) = Some [of_Z 250; of_Z 500].
Proof.
  intros Hv Hpos. split; [|vm_compute; reflexivity].
  destruct (exponentialDistribution_loop_fuel min max Hv Hpos) as (n & Hrun & Hkept & Hexit).
  exists n. split; [|split].
  - unfold exponentialDistribution. now rewrite (Hrun [] loopBound).
  - intros k Hk. destruct (Hkept k Hk) as (H1 & _ & _ & H4 & H5). auto.
  - now apply doubled_not_below.
Qed.

Lemma exponentialDistribution_terms_witness :
  (exists n : nat,
     exponentialDistribution (of_Z 1) (of_Z 60000) =
       Some (map (fun k => doubled k (of_Z 1)) (seq 0 n)) /\
     (forall k : nat, (k < n)%nat ->
        ltb (doubled k (of_Z 1)) (mul two (of_Z 60000)) = true /\
        is_finite (doubled k (of_Z 1)) = true /\
        (value (doubled k (of_Z 1)) == inject_Z (2 ^ Z.of_nat k) * value (of_Z 1))%Q) /\
     (forall k : nat, (n <= k)%nat ->
        ltb (doubled k (of_Z 1)) (mul two (of_Z 60000)) = false)) /\
  exponentialDistribution (of_Z 250) (of_Z 500) = Some [of_Z 250; of_Z 500].
Proof.
  apply (exponentialDistribution_terms (of_Z 1) (of_Z 60000)); reflexivity.
Defined.

(** C2, as stated, fails: the last element of
    [exponentialDistribution 250 500 = [250; 500]] is [500], which is below
    [2·500]; the term that first reaches [2·max] is not part of the result. *)
Lemma exponentialDistribution_last_counterexample :
  ~ (forall (min max : float64) (v : list float64),
       valid min = true -> valid max = true ->
       ltb zero min = true -> ltb min max = true ->
       exponentialDistribution min max = Some v ->
       exists l : float64, last v = Some l /\ ltb l (mul two max) = false).
Proof.
  intros H.
  destruct (H (of_Z 250) (of_Z 500) [of_Z 250; of_Z 500])
    as (l & Hl & Hnot); try (vm_compute; reflexivity).
  cbn [last] in Hl. injection Hl as <-. vm_compute in Hnot. discriminate.
Qed.

(** C2, amended.  For all positive [min < max] the result is not empty, its
    first element is [min], and its last element [l] is the last
    power-of-two multiple of [min] below [2·max]: [l < 2·max], and [2·l],
    the term that first reaches or exceeds [2·max], is not below it (and is
    not part of the result). *)
Theorem exponentialDistribution_last (min max : float64) :
  valid min = true -> valid max = true ->
  ltb zero min = true -> ltb min max = true ->
  exists (v : list float64) (l : float64),
    exponentialDistribution min max = Some v /\
    head v = Some min /\
    last v = Some l /\
    (exists k : nat, l = doubled k min) /\
    ltb l (mul two max) = true /\
    ltb (mul l two) (mul two max) = false.
Proof.
  intros Hv Hvmax Hpos Hlt.
  assert (Hlt2 : ltb min (mul two max) = true).
  { pose proof (F64_ltb_trans _ _ _ Hpos Hlt) as Hposmax.
    destruct (F64_pos_inv _ Hposmax) as [->|(m & e & ->)]; [exact Hlt|].
    apply F64_ltb_trans with (S754_finite false m e); [exact Hlt|].
    rewrite F64_mul_two_comm. now apply F64_ltb_double. }
  destruct (exponentialDistribution_loop_fuel min max Hv Hpos) as (n & Hrun & Hkept & Hexit).
  destruct n as [|n].
  { change (doubled 0 min) with min in Hexit. congruence. }
  exists (map (fun k => doubled k min) (seq 0 (S n))), (doubled n min).
  split; [|split; [|split; [|split; [|split]]]].
  - unfold exponentialDistribution. now rewrite (Hrun [] loopBound).
  - reflexivity.
  - rewrite seq_S, map_app. apply last_snoc.
  - now exists n.
  - apply (Hkept n). lia.
  - exact Hexit.
Qed.

Lemma exponentialDistribution_last_witness :
  exists (v : list float64) (l : float64),
    exponentialDistribution (of_Z 250) (of_Z 500) = Some v /\
    head v = Some (of_Z 250) /\
    last v = Some l /\
    (exists k : nat, l = doubled k (of_Z 250)) /\
    ltb l (mul two (of_Z 500)) = true /\
    ltb (mul l two) (mul two (of_Z 500)) = false.
Proof.
  apply (exponentialDistribution_last (of_Z 250) (of_Z 500)); reflexivity.
Defined.

(** C3, as stated, fails: [min = 4 > 0] and [max = 1] give the empty
    sequence, since [4 < 2·1] is false on entry. *)
Lemma exponentialDistribution_nonempty_counterexample :
  valid (of_Z 4) = true /\ ltb zero (of_Z 4) = true /\
  exponentialDistribution (of_Z 4) (of_Z 1) = Some [].
Proof. repeat split. Qed.

(** C3, amended.  For every [min > 0] (and any [max]) the loop terminates:
    with [loopBound] or more fuel it returns one and the same sequence.
    That sequence is strictly increasing, and it has at least one element
    exactly when [min < 2·max]. *)
Theorem exponentialDistribution_increasing (min max : float64) :
  valid min = true -> ltb zero min = true ->
  exists v : list float64,
    (forall fuel : nat, (loopBound <= fuel)%nat ->
       exponentialDistribution_loop fuel min max [] = Some v) /\
    exponentialDistribution min max = Some v /\
    StronglySorted (fun x y => ltb x y = true) v /\
    (v <> [] <-> ltb min (mul two max) = true).
Proof.
  intros Hv Hpos.
  destruct (exponentialDistribution_loop_fuel min max Hv Hpos) as (n & Hrun & Hkept & Hexit).
  exists (map (fun k => doubled k min) (seq 0 n)).
  split; [|split; [|split]].
  - intros fuel Hf. now rewrite (Hrun [] fuel Hf).
  - unfold exponentialDistribution. now rewrite (Hrun [] loopBound).
  - apply (doubled_terms_sorted min n); auto.
    intros i Hi. now destruct (Hkept i Hi) as (_ & _ & _ & H4 & _).
  - destruct n as [|n].
    + change (doubled 0 min) with min in Hexit. rewrite Hexit. cbn [seq map].
      split; [congruence | discriminate].
    + destruct (Hkept 0%nat ltac:(lia)) as (H1 & _). change (doubled 0 min) with min in H1.
      rewrite H1. cbn [seq map]. split; [reflexivity | discriminate].
Qed.

Lemma exponentialDistribution_increasing_witness :
  exists v : list float64,
    (forall fuel : nat, (loopBound <= fuel)%nat ->
       exponentialDistribution_loop fuel (of_Z 250) (of_Z 604800000) [] = Some v) /\
    exponentialDistribution (of_Z 250) (of_Z 604800000) = Some v /\
    StronglySorted (fun x y => ltb x y = true) v /\
    (v <> [] <-> ltb (of_Z 250) (mul two (of_Z 604800000)) = true).
Proof.
  apply (exponentialDistribution_increasing (of_Z 250) (of_Z 604800000)); reflexivity.
Defined.

End BucketGenerator.

(** ** The connection-state tagger and the recorders *)

Section Tagger.

Import swarm.

Lemma tag_key_names :
  map tag.Name [directionTag; transportTag; securityTag; muxerTag] =
  ["dir"; "transport"; "security"; "muxer"]%string.
Proof. reflexivity. Qed.

Lemma tagSet_snoc (ms : list tag.Mutator) (k : tag.Key) (v : string) :
  tag.tagSet (ms ++ [tag.Upsert k v]) = <[tag.Name k := v]> (tag.tagSet ms).
Proof. unfold tag.tagSet. now rewrite foldl_snoc. Qed.

Lemma getDirection_values (dir : network.Direction) :
  getDirection dir = "outbound"%string \/ getDirection dir = "inbound"%string \/
  getDirection dir = "unknown"%string.
Proof. destruct dir; cbn; auto. Qed.

(** The tag set after [appendConnectionState], key by key. *)
Lemma appendConnectionState_tagSet (tags : list tag.Mutator) (cs : network.ConnectionState) :
  tag.tagSet (appendConnectionState tags cs) !! "transport"%string =
    Some (if String.eqb (network.Transport cs) "" then "unknown"%string
          else network.Transport cs) /\
  tag.tagSet (appendConnectionState tags cs) !! "security"%string =
    (if String.eqb (network.Security cs) ""
     then tag.tagSet tags !! "security"%string else Some (network.Security cs)) /\
  tag.tagSet (appendConnectionState tags cs) !! "muxer"%string =
    (if String.eqb (network.StreamMultiplexer cs) ""
     then tag.tagSet tags !! "muxer"%string else Some (network.StreamMultiplexer cs)) /\
  forall k : string,
    k <> "transport"%string -> k <> "security"%string -> k <> "muxer"%string ->
    tag.tagSet (appendConnectionState tags cs) !! k = tag.tagSet tags !! k.
Proof.
  unfold appendConnectionState.
  destruct (String.eqb (network.Transport cs) ""),
           (String.eqb (network.Security cs) ""),
           (String.eqb (network.StreamMultiplexer cs) "");
    cbn [negb]; rewrite ?tagSet_snoc; change (tag.Name transportTag) with "transport"%string;
    change (tag.Name securityTag) with "security"%string;
    change (tag.Name muxerTag) with "muxer"%string;
    repeat split; intros; simplify_map_eq; reflexivity.
Qed.

(** C4. For every direction and connection state, the three recorders that
    take a direction submit one and the same tag list, and the tag set it
    denotes has the direction key set to one of "outbound", "inbound",
    "unknown"; the transport key set to the reported transport, or to
    "unknown" when that is empty; and the security and muxer keys absent
    when the corresponding field is empty and set to that field
    otherwise. *)
Theorem recorder_tag_set (dir : network.Direction) (cs : network.ConnectionState) :
  exists tags : list tag.Mutator,
    (forall (Engine : Type)
            (RecordWithTags : list tag.Mutator -> list stats.Measurement ->
                              Engine -> Engine * option error)
            (t : time.Duration) (σ : Engine),
       recordConnectionOpened RecordWithTags dir cs σ =
         fst (RecordWithTags tags [stats.M connsOpened 1] σ) /\
       recordConnectionClosed RecordWithTags dir cs σ =
         fst (RecordWithTags tags [stats.M connsClosed 1] σ) /\
       recordConnectionDuration RecordWithTags dir t cs σ =
         fst (RecordWithTags tags [stats.M connDuration (time.Milliseconds t)] σ)) /\
    tag.tagSet tags !! tag.Name directionTag = Some (getDirection dir) /\
    (getDirection dir = "outbound"%string \/ getDirection dir = "inbound"%string \/
     getDirection dir = "unknown"%string) /\
    tag.tagSet tags !! tag.Name transportTag =
      Some (if decide (network.Transport cs = ""%string) then "unknown"%string
            else network.Transport cs) /\
    tag.tagSet tags !! tag.Name securityTag =
      (if decide (network.Security cs = ""%string) then None
       else Some (network.Security cs)) /\
    tag.tagSet tags !! tag.Name muxerTag =
      (if decide (network.StreamMultiplexer cs = ""%string) then None
       else Some (network.StreamMultiplexer cs)).
Proof.
  exists (appendConnectionState [tag.Upsert directionTag (getDirection dir)] cs).
  destruct (appendConnectionState_tagSet [tag.Upsert directionTag (getDirection dir)] cs)
    as (Ht & Hs & Hm & Hother).
  change (tag.Name directionTag) with "dir"%string.
  change (tag.Name transportTag) with "transport"%string.
  change (tag.Name securityTag) with "security"%string.
  change (tag.Name muxerTag) with "muxer"%string.
  split; [|split; [|split; [|split; [|split]]]].
  - intros Engine RecordWithTags t σ.
    unfold recordConnectionOpened, recordConnectionClosed, recordConnectionDuration.
    cbn [app].
    repeat split;
      match goal with |- context [RecordWithTags ?a ?b ?c] =>
        destruct (RecordWithTags a b c) end; reflexivity.
  - rewrite Hother by discriminate. reflexivity.
  - apply getDirection_values.
  - rewrite Ht. destruct (String.eqb_spec (network.Transport cs) "");
      case_decide; congruence.
  - rewrite Hs. destruct (String.eqb_spec (network.Security cs) "");
      case_decide; reflexivity || congruence.
  - rewrite Hm. destruct (String.eqb_spec (network.StreamMultiplexer cs) "");
      case_decide; reflexivity || congruence.
Qed.

(** C5, as stated, fails on the name of the direction key: the key is
    created with the name "dir", so the tag set of the scenario has no
    entry named "direction". *)
Lemma recordConnectionOpened_scenario_counterexample :
  exists s : Submission,
    recordConnectionOpened (logEngine (fun _ => None)) network.DirOutbound
      {| network.StreamMultiplexer := "yamux";
         network.Security := "tls";
         network.Transport := "tcp" |} [] = [s] /\
    tag.tagSet (sub_tags s) !! "direction"%string = None /\
    tag.Name directionTag <> "direction"%string.
Proof.
  eexists. split; [reflexivity|]. split; [|discriminate].
  vm_compute. reflexivity.
Qed.

(** C5, amended.  For an outbound connection reporting transport "tcp",
    security "tls" and muxer "yamux", [recordConnectionOpened] submits
    exactly one observation, of value 1 for connections_opened, and
    [recordConnectionDuration] with 1500ms elapsed submits exactly one
    observation, of value 1500 for connection_duration; both carry the
    tag set {dir: outbound, transport: tcp, security: tls, muxer: yamux},
    the four keys being named dir, transport, security and muxer. *)
Theorem recordConnection_scenario :
  let cs := {| network.StreamMultiplexer := "yamux";
               network.Security := "tls";
               network.Transport := "tcp" |} in
  let tags := [tag.Upsert directionTag "outbound"; tag.Upsert transportTag "tcp";
               tag.Upsert securityTag "tls"; tag.Upsert muxerTag "yamux"] in
  (forall (reply : Submission -> option error) (log : list Submission),
     recordConnectionOpened (logEngine reply) network.DirOutbound cs log =
       log ++ [{| sub_tags := tags; sub_measurements := [stats.M connsOpened 1] |}] /\
     recordConnectionDuration (logEngine reply) network.DirOutbound
         (1500 * time.Millisecond) cs log =
       log ++ [{| sub_tags := tags; sub_measurements := [stats.M connDuration 1500] |}]) /\
  tag.tagSet tags =
    {[ "dir" := "outbound"; "transport" := "tcp";
       "security" := "tls"; "muxer" := "yamux" ]}%string /\
  map tag.Name [directionTag; transportTag; securityTag; muxerTag] =
    ["dir"; "transport"; "security"; "muxer"]%string /\
  stats.Name connsOpened = "swarm/connections_opened"%string /\
  stats.Name connDuration = "swarm/connection_duration"%string.
Proof.
  cbv zeta. split; [|split; [|repeat split]].
  - intros reply log. split; reflexivity.
  - apply map_eq. intros k. unfold tag.tagSet. cbn [foldl].
    change (tag.Name directionTag) with "dir"%string.
    change (tag.Name transportTag) with "transport"%string.
    change (tag.Name securityTag) with "security"%string.
    change (tag.Name muxerTag) with "muxer"%string.
    destruct (decide (k = "muxer"%string)) as [->|];
      [now simplify_map_eq|].
    destruct (decide (k = "security"%string)) as [->|];
      [now simplify_map_eq|].
    destruct (decide (k = "transport"%string)) as [->|];
      [now simplify_map_eq|].
    destruct (decide (k = "dir"%string)) as [->|];
      now simplify_map_eq.
Qed.

Lemma Milliseconds_trunc (t : time.Duration) :
  Z.abs (1000000 * time.Milliseconds t) <= Z.abs t /\
  Z.abs (t - 1000000 * time.Milliseconds t) < 1000000 /\
  (0 <= t -> 0 <= time.Milliseconds t) /\
  (t <= 0 -> time.Milliseconds t <= 0).
Proof.
  unfold time.Milliseconds.
  pose proof (Z.quot_rem' t 1000000) as Hqr.
  pose proof (Z.rem_bound_abs t 1000000 ltac:(lia)) as Hb.
  destruct (Z.le_ge_cases 0 t) as [Hs|Hs].
  - pose proof (Z.rem_nonneg t 1000000 ltac:(lia) Hs). lia.
  - pose proof (Z.rem_nonpos t 1000000 ltac:(lia) Hs). lia.
Qed.

(** C6. For every elapsed time [t] and connection state,
    [recordHandshakeLatency] submits one observation, of [t] in whole
    milliseconds (truncated toward zero) for handshake_latency, tagged with
    what [appendConnectionState] adds to the empty list: the transport
    mutator (the reported transport, or "unknown" when that is empty),
    then the security and the muxer mutator when the corresponding field
    is not empty, and nothing else.  Its tag set has transport set,
    security and muxer set exactly when reported, and no key besides these
    three, in particular not the direction key; and the handshake-latency
    view declares the transport, security and muxer keys only. *)
Theorem recordHandshakeLatency_tag_set (t : time.Duration) (cs : network.ConnectionState) :
  exists tags : list tag.Mutator,
    (forall (Engine : Type)
            (RecordWithTags : list tag.Mutator -> list stats.Measurement ->
                              Engine -> Engine * option error)
            (σ : Engine),
       recordHandshakeLatency RecordWithTags t cs σ =
         fst (RecordWithTags tags
                [stats.M connHandshakeLatency (time.Milliseconds t)] σ)) /\
    (forall (reply : Submission -> option error) (log : list Submission),
       recordHandshakeLatency (logEngine reply) t cs log =
         log ++ [{| sub_tags := tags;
                    sub_measurements :=
                      [stats.M connHandshakeLatency (time.Milliseconds t)] |}]) /\
    tags =
      [tag.Upsert transportTag
         (if decide (network.Transport cs = ""%string) then "unknown"%string
          else network.Transport cs)] ++
      (if decide (network.Security cs = ""%string) then []
       else [tag.Upsert securityTag (network.Security cs)]) ++
      (if decide (network.StreamMultiplexer cs = ""%string) then []
       else [tag.Upsert muxerTag (network.StreamMultiplexer cs)]) /\
    tag.tagSet tags !! tag.Name transportTag =
      Some (if decide (network.Transport cs = ""%string) then "unknown"%string
            else network.Transport cs) /\
    tag.tagSet tags !! tag.Name securityTag =
      (if decide (network.Security cs = ""%string) then None
       else Some (network.Security cs)) /\
    tag.tagSet tags !! tag.Name muxerTag =
      (if decide (network.StreamMultiplexer cs = ""%string) then None
       else Some (network.StreamMultiplexer cs)) /\
    Z.abs (1000000 * time.Milliseconds t) <= Z.abs t /\
    Z.abs (t - 1000000 * time.Milliseconds t) < 1000000 /\
    stats.Name connHandshakeLatency = "swarm/handshake_latency"%string /\
    tag.tagSet tags !! tag.Name directionTag = None /\
    dom (tag.tagSet tags) ⊆
      ({[ tag.Name transportTag; tag.Name securityTag; tag.Name muxerTag ]} : gset string) /\
    exists v : view.View,
      connHandshakeLatencyView = Some v /\
      view.Measure v = connHandshakeLatency /\
      view.TagKeys v = [transportTag; securityTag; muxerTag].
Proof.
  exists (appendConnectionState [] cs).
  destruct (appendConnectionState_tagSet [] cs) as (Ht & Hs & Hm & Hother).
  destruct (Milliseconds_trunc t) as (Hm1 & Hm2 & _).
  split; [|split; [|split; [|split; [|split; [|split;
    [|split; [|split; [|split; [|split; [|split]]]]]]]]]].
  - intros Engine RecordWithTags σ. unfold recordHandshakeLatency.
    match goal with |- context [RecordWithTags ?a ?b ?c] =>
      destruct (RecordWithTags a b c) end; reflexivity.
  - intros reply log. reflexivity.
  - unfold appendConnectionState.
    destruct (String.eqb_spec (network.Transport cs) ""),
             (String.eqb_spec (network.Security cs) ""),
             (String.eqb_spec (network.StreamMultiplexer cs) "");
      repeat case_decide; try congruence; reflexivity.
  - change (tag.Name transportTag) with "transport"%string. rewrite Ht.
    destruct (String.eqb_spec (network.Transport cs) "");
      case_decide; congruence.
  - change (tag.Name securityTag) with "security"%string. rewrite Hs.
    destruct (String.eqb_spec (network.Security cs) "");
      case_decide; reflexivity || congruence.
  - change (tag.Name muxerTag) with "muxer"%string. rewrite Hm.
    destruct (String.eqb_spec (network.StreamMultiplexer cs) "");
      case_decide; reflexivity || congruence.
  - exact Hm1.
  - exact Hm2.
  - reflexivity.
  - rewrite Hother by discriminate. reflexivity.
  - intros k Hk. apply elem_of_dom in Hk.
    change (tag.Name transportTag) with "transport"%string.
    change (tag.Name securityTag) with "security"%string.
    change (tag.Name muxerTag) with "muxer"%string.
    destruct (decide (k = "transport"%string)); [set_solver|].
    destruct (decide (k = "security"%string)); [set_solver|].
    destruct (decide (k = "muxer"%string)); [set_solver|].
    rewrite Hother in Hk by assumption. destruct Hk as [x Hx]. discriminate.
  - eexists. split; [vm_compute; reflexivity|]. split; reflexivity.
Qed.

(** C8. None of the four recorders can fail towards its caller: each
    returns only the state of the engine, and whatever error the engine
    answers is dropped.  Two engines that treat every submission alike
    but answer with different errors are indistinguishable through the
    recorders. *)
Theorem recorders_absorb_errors
    (Engine : Type)
    (RecordWithTags RecordWithTags' :
       list tag.Mutator -> list stats.Measurement -> Engine -> Engine * option error) :
  (forall tags ms σ, fst (RecordWithTags tags ms σ) = fst (RecordWithTags' tags ms σ)) ->
  forall (dir : network.Direction) (t : time.Duration)
         (cs : network.ConnectionState) (σ : Engine),
    recordConnectionOpened RecordWithTags dir cs σ =
      recordConnectionOpened RecordWithTags' dir cs σ /\
    recordConnectionClosed RecordWithTags dir cs σ =
      recordConnectionClosed RecordWithTags' dir cs σ /\
    recordConnectionDuration RecordWithTags dir t cs σ =
      recordConnectionDuration RecordWithTags' dir t cs σ /\
    recordHandshakeLatency RecordWithTags t cs σ =
      recordHandshakeLatency RecordWithTags' t cs σ.
Proof.
  intros Hsame dir t cs σ.
  unfold recordConnectionOpened, recordConnectionClosed, recordConnectionDuration,
    recordHandshakeLatency.
  repeat split;
    match goal with
    | |- context [RecordWithTags ?a ?b ?c] =>
        specialize (Hsame a b c);
        destruct (RecordWithTags a b c), (RecordWithTags' a b c)
    end; exact Hsame.
Qed.

(** An engine that rejects every submission against one that accepts them
    all: the recorders leave the same log behind. *)
Lemma recorders_absorb_errors_witness :
  recordConnectionOpened (logEngine (fun _ => Some "not recorded"%string))
      network.DirInbound
      {| network.StreamMultiplexer := ""; network.Security := "";
         network.Transport := "quic" |} [] =
    recordConnectionOpened (logEngine (fun _ => None))
      network.DirInbound
      {| network.StreamMultiplexer := ""; network.Security := "";
         network.Transport := "quic" |} [] /\
  recordConnectionClosed (logEngine (fun _ => Some "not recorded"%string))
      network.DirInbound
      {| network.StreamMultiplexer := ""; network.Security := "";
         network.Transport := "quic" |} [] =
    recordConnectionClosed (logEngine (fun _ => None))
      network.DirInbound
      {| network.StreamMultiplexer := ""; network.Security := "";
         network.Transport := "quic" |} [] /\
  recordConnectionDuration (logEngine (fun _ => Some "not recorded"%string))
      network.DirInbound (1500 * time.Millisecond)
      {| network.StreamMultiplexer := ""; network.Security := "";
         network.Transport := "quic" |} [] =
    recordConnectionDuration (logEngine (fun _ => None))
      network.DirInbound (1500 * time.Millisecond)
      {| network.StreamMultiplexer := ""; network.Security := "";
         network.Transport := "quic" |} [] /\
  recordHandshakeLatency (logEngine (fun _ => Some "not recorded"%string))
      (1500 * time.Millisecond)
      {| network.StreamMultiplexer := ""; network.Security := "";
         network.Transport := "quic" |} [] =
    recordHandshakeLatency (logEngine (fun _ => None))
      (1500 * time.Millisecond)
      {| network.StreamMultiplexer := ""; network.Security := "";
         network.Transport := "quic" |} [].
Proof.
  apply (recorders_absorb_errors (list Submission)
           (logEngine (fun _ => Some "not recorded"%string))
           (logEngine (fun _ => None))).
  intros tags ms σ. reflexivity.
Defined.

End Tagger.

(** ** The view registry *)

Section Views.

Import F64 swarm.

(** One week, in milliseconds. *)
Lemma week_Milliseconds :
  time.Milliseconds (7 * 24 * time.Hour) = 7 * 24 * 60 * 60 * 1000.
Proof. reflexivity. Qed.

(** C7. [DefaultViews] consists of exactly four views, one per measure, in
    the order opened, closed, duration, handshake latency.  The first three
    declare the four tag keys, the last one only transport, security and
    muxer.  The two count views aggregate by sum.  The two distribution
    views take their boundaries from [exponentialDistribution], called with
    250 and one week of milliseconds (boundaries [250·2^k], [k < 23], the
    last one being the first to exceed a week) and with 1 and 60000
    (boundaries [2^k], [k < 17], the last one being the first to exceed
    60 seconds). *)
Theorem DefaultViews_registry :
  let all := [directionTag; transportTag; securityTag; muxerTag] in
  let week := 7 * 24 * 60 * 60 * 1000 in
  exists durationBounds latencyBounds : list float64,
    DefaultViews =
      Some [ {| view.Measure := connsOpened; view.Aggregation_ := view.Sum;
                view.TagKeys := all |};
             {| view.Measure := connsClosed; view.Aggregation_ := view.Sum;
                view.TagKeys := all |};
             {| view.Measure := connDuration;
                view.Aggregation_ := view.Distribution durationBounds;
                view.TagKeys := all |};
             {| view.Measure := connHandshakeLatency;
                view.Aggregation_ := view.Distribution latencyBounds;
                view.TagKeys := [transportTag; securityTag; muxerTag] |} ] /\
    map stats.Name [connsOpened; connsClosed; connDuration; connHandshakeLatency] =
      ["swarm/connections_opened"; "swarm/connections_closed";
       "swarm/connection_duration"; "swarm/handshake_latency"]%string /\
    connDurationMilliseconds = exponentialDistribution (of_Z 250) (of_Z week) /\
    exponentialDistribution (of_Z 250) (of_Z week) = Some durationBounds /\
    durationBounds = map (fun k => of_Z (250 * 2 ^ Z.of_nat k)) (seq 0 23) /\
    250 * 2 ^ 21 < week <= 250 * 2 ^ 22 /\
    handshakeLatencyMilliseconds = exponentialDistribution (of_Z 1) (of_Z 60000) /\
    exponentialDistribution (of_Z 1) (of_Z 60000) = Some latencyBounds /\
    latencyBounds = map (fun k => of_Z (2 ^ Z.of_nat k)) (seq 0 17) /\
    2 ^ 15 < 60000 <= 2 ^ 16.
Proof.
  cbv zeta.
  exists (map (fun k => of_Z (250 * 2 ^ Z.of_nat k)) (seq 0 23)),
         (map (fun k => of_Z (2 ^ Z.of_nat k)) (seq 0 17)).
  split; [vm_compute; reflexivity|].
  split; [reflexivity|].
  split; [reflexivity|].
  split; [vm_compute; reflexivity|].
  split; [reflexivity|].
  split; [lia|].
  split; [reflexivity|].
  split; [vm_compute; reflexivity|].
  split; [reflexivity|]. lia.
Qed.

End Views.

(** ** The options of the QUIC transport *)

Section Options.

Import libp2pquic.

Lemma apply_app (xs ys : list Option) (cfg : config) :
  apply (xs ++ ys) cfg =
    match apply xs cfg with
    | (cfg', None) => apply ys cfg'
    | failed => failed
    end.
Proof.
  revert cfg. induction xs as [|x xs IH]; intros cfg; cbn [apply app]; [reflexivity|].
  destruct (x cfg) as [cfg' [e|]]; [reflexivity | apply IH].
Qed.

Lemma applied_snoc (opts : list Option) (opt : Option) (cfg : config) :
  applied (opts ++ [opt]) cfg = fst (opt (applied opts cfg)).
Proof. unfold applied. now rewrite foldl_snoc. Qed.

(** While no option fails, [apply] is [applied]. *)
Lemma apply_no_error (opts : list Option) (cfg : config) :
  (forall (j : nat) (opt : Option),
     opts !! j = Some opt -> snd (opt (applied (take j opts) cfg)) = None) ->
  apply opts cfg = (applied opts cfg, None).
Proof.
  induction opts as [|opt opts IH] using rev_ind; intros Hok; [reflexivity|].
  rewrite apply_app, IH.
  - cbn [apply]. rewrite applied_snoc.
    specialize (Hok (length opts) opt).
    rewrite take_app_length, list_lookup_middle in Hok by reflexivity.
    specialize (Hok eq_refl).
    destruct (opt (applied opts cfg)) as [cfg' err]. cbn in Hok |- *. now subst err.
  - intros j o Hj. pose proof (lookup_lt_Some _ _ _ Hj) as Hlt.
    specialize (Hok j o). rewrite lookup_app_l, take_app_le in Hok by lia. auto.
Qed.

(** C9. On every starting configuration, each of the three options applied
    twice gives what it gives applied once, and any two of them give the
    same configuration in either order. *)
Theorem apply_idempotent_commutative (cfg : config) :
  (apply [DisableReuseport; DisableReuseport] cfg = apply [DisableReuseport] cfg /\
   apply [DisableDraft29; DisableDraft29] cfg = apply [DisableDraft29] cfg /\
   apply [WithMetrics; WithMetrics] cfg = apply [WithMetrics] cfg) /\
  (apply [DisableReuseport; WithMetrics] cfg = apply [WithMetrics; DisableReuseport] cfg /\
   apply [DisableReuseport; DisableDraft29] cfg = apply [DisableDraft29; DisableReuseport] cfg /\
   apply [DisableDraft29; WithMetrics] cfg = apply [WithMetrics; DisableDraft29] cfg) /\
  apply [DisableReuseport; WithMetrics] cfg =
    ({| disableReuseport := true; disableDraft29 := disableDraft29 cfg;
        metrics := true |}, None).
Proof. repeat split. Qed.

(** C10. [apply] runs the options in order.  If the options of [pre] all
    succeed, each on the configuration its predecessors left, then [apply
    pre] returns nil with that configuration (so [apply []] returns nil and
    changes nothing); and if the next option [bad] then fails with [e],
    [apply (pre ++ bad :: post)] returns [e] and leaves the configuration as
    [pre] and [bad] made it: nothing is rolled back, and no option of
    [post] has any effect on the outcome. *)
Theorem apply_first_error (pre post : list Option) (bad : Option) (cfg : config) :
  (forall (j : nat) (opt : Option),
     pre !! j = Some opt -> snd (opt (applied (take j pre) cfg)) = None) ->
  apply pre cfg = (applied pre cfg, None) /\
  (forall e : error,
     snd (bad (applied pre cfg)) = Some e ->
     apply (pre ++ bad :: post) cfg = (fst (bad (applied pre cfg)), Some e)) /\
  (snd (bad (applied pre cfg)) = None ->
     apply (pre ++ bad :: post) cfg = apply post (fst (bad (applied pre cfg)))) /\
  apply [] cfg = (cfg, None).
Proof.
  intros Hok. pose proof (apply_no_error pre cfg Hok) as Hpre.
  split; [exact Hpre|]. split; [|split; [|reflexivity]].
  - intros e He. rewrite apply_app, Hpre. cbn [apply].
    destruct (bad (applied pre cfg)) as [cfg' err]. cbn in He |- *. now subst err.
  - intros He. rewrite apply_app, Hpre. cbn [apply].
    destruct (bad (applied pre cfg)) as [cfg' err]. cbn in He |- *. now subst err.
Qed.

Lemma apply_first_error_witness :
  apply [DisableReuseport; WithMetrics]
        {| disableReuseport := false; disableDraft29 := false; metrics := false |} =
    (applied [DisableReuseport; WithMetrics]
       {| disableReuseport := false; disableDraft29 := false; metrics := false |}, None) /\
  (forall e : error,
     snd ((fun c : config => (c, Some "unsupported"%string))
            (applied [DisableReuseport; WithMetrics]
               {| disableReuseport := false; disableDraft29 := false;
                  metrics := false |})) = Some e ->
     apply ([DisableReuseport; WithMetrics] ++
            (fun c : config => (c, Some "unsupported"%string)) :: [DisableDraft29])
           {| disableReuseport := false; disableDraft29 := false; metrics := false |} =
       (fst ((fun c : config => (c, Some "unsupported"%string))
               (applied [DisableReuseport; WithMetrics]
                  {| disableReuseport := false; disableDraft29 := false;
                     metrics := false |})), Some e)) /\
  (snd ((fun c : config => (c, Some "unsupported"%string))
          (applied [DisableReuseport; WithMetrics]
             {| disableReuseport := false; disableDraft29 := false;
                metrics := false |})) = None ->
   apply ([DisableReuseport; WithMetrics] ++
          (fun c : config => (c, Some "unsupported"%string)) :: [DisableDraft29])
         {| disableReuseport := false; disableDraft29 := false; metrics := false |} =
     apply [DisableDraft29]
       (fst ((fun c : config => (c, Some "unsupported"%string))
               (applied [DisableReuseport; WithMetrics]
                  {| disableReuseport := false; disableDraft29 := false;
                     metrics := false |})))) /\
  apply [] {| disableReuseport := false; disableDraft29 := false; metrics := false |} =
    ({| disableReuseport := false; disableDraft29 := false; metrics := false |}, None).
Proof.
  apply (apply_first_error [DisableReuseport; WithMetrics] [DisableDraft29]
           (fun c => (c, Some "unsupported"%string))
           {| disableReuseport := false; disableDraft29 := false; metrics := false |}).
  intros [|[|j]] opt Hj; cbn in Hj; [injection Hj as <- ..|discriminate]; reflexivity.
Defined.

End Options.

(** * Further properties of the code *)

(** ** Doubling and the order *)

Section F64Monotone.

Import F64.

Lemma digits2_pos_size (m : positive) : digits2_pos m = Pos.size m.
Proof. induction m as [m IH|m IH|]; cbn; congruence. Qed.

(** More significant bits, larger mantissa. *)
Lemma digits2_pos_mono (m1 m2 : positive) :
  (m1 <= m2)%positive -> Zpos (digits2_pos m1) <= Zpos (digits2_pos m2).
Proof.
  intros Hle. rewrite !digits2_pos_size.
  destruct (Z.le_gt_cases (Zpos (Pos.size m1)) (Zpos (Pos.size m2))) as [|Hgt]; [assumption|].
  exfalso.
  pose proof (Pos.size_gt m2) as Hup. pose proof (Pos.size_le m1) as Hlow.
  apply Pos2Z.pos_lt_pos in Hup. apply Pos2Z.pos_le_pos in Hlow.
  rewrite Pos2Z.inj_pow in Hup, Hlow.
  change (Z.pos m1~0) with (2 * Z.pos m1) in Hlow.
  assert (Hpow : 2 ^ (Zpos (Pos.size m2) + 1) <= 2 ^ Zpos (Pos.size m1))
    by (apply Z.pow_le_mono_r; lia).
  rewrite Z.pow_add_r in Hpow by lia. change (2 ^ 1) with 2 in Hpow.
  apply Pos2Z.pos_le_pos in Hle. lia.
Qed.

(** Doubling keeps the order of positive finite values, strictly so
    unless the larger one overflows. *)
Lemma F64_double_mono m1 e1 m2 e2 :
  valid (S754_finite false m1 e1) = true ->
  valid (S754_finite false m2 e2) = true ->
  ltb (S754_finite false m1 e1) (S754_finite false m2 e2) = true ->
  mul (S754_finite false m2 e2) two = pinf \/
  ltb (mul (S754_finite false m1 e1) two) (mul (S754_finite false m2 e2) two) = true.
Proof.
  intros Hv1 Hv2 Hlt.
  rewrite (F64_mul_two_r _ _ _ Hv1), (F64_mul_two_r _ _ _ Hv2).
  apply F64_valid_finite_inv in Hv1, Hv2. apply F64_ltb_finite_pos in Hlt.
  assert (Hm : e1 = e2 -> Zpos (digits2_pos m1) <= Zpos (digits2_pos m2)).
  { intros ->. apply digits2_pos_mono. lia. }
  destruct (Z.eqb_spec (Zpos (digits2_pos m1)) 53) as [Hd1|Hd1],
           (Z.eqb_spec (Zpos (digits2_pos m2)) 53) as [Hd2|Hd2];
    repeat match goal with |- context [?a <=? ?b] => destruct (Z.leb_spec a b) end;
    try (left; reflexivity); right;
    try (apply F64_ltb_finite_pos; lia); lia.
Qed.

(** [a < b <= c] gives [a < c], [c] not being NaN. *)
Lemma F64_lt_le_trans (a b c : float64) :
  c <> S754_nan -> ltb a b = true -> ltb c b = false -> ltb a c = true.
Proof.
  intros Hc.
  destruct a as [[]|[]| |[] ma ea], b as [[]|[]| |[] mb eb], c as [[]|[]| |[] mc ec];
    try congruence; try (intros; reflexivity); try (intros; discriminate).
  - intros H1 H2. apply not_true_iff_false in H2.
    rewrite F64_ltb_finite_neg in *. lia.
  - intros H1 H2. apply not_true_iff_false in H2.
    rewrite F64_ltb_finite_pos in *. lia.
Qed.

(** [a <= b < c] gives [a < c], [a] not being NaN. *)
Lemma F64_le_lt_trans (a b c : float64) :
  a <> S754_nan -> ltb b a = false -> ltb b c = true -> ltb a c = true.
Proof.
  intros Ha.
  destruct a as [[]|[]| |[] ma ea], b as [[]|[]| |[] mb eb], c as [[]|[]| |[] mc ec];
    try congruence; try (intros; reflexivity); try (intros; discriminate).
  - intros H1 H2. apply not_true_iff_false in H1.
    rewrite F64_ltb_finite_neg in *. lia.
  - intros H1 H2. apply not_true_iff_false in H1.
    rewrite F64_ltb_finite_pos in *. lia.
Qed.

(** Twice a positive value is a positive value, finite or not. *)
Lemma F64_two_mul_pos (max : float64) :
  valid max = true -> ltb zero max = true ->
  mul two max = pinf \/ exists m e, mul two max = S754_finite false m e.
Proof.
  intros Hv Hpos. rewrite F64_mul_two_comm.
  destruct (F64_pos_inv _ Hpos) as [->|(m & e & ->)]; [now left|].
  destruct (F64_double_pos m e Hv) as [->|(m' & e' & -> & _)]; eauto.
Qed.

End F64Monotone.

(** ** More on the bucket generator *)

Section BucketGeneratorMore.

Import F64 swarm.

Lemma F64_ltb_asym (a b : float64) : ltb a b = true -> ltb b a = false.
Proof.
  intros Hab. apply not_true_is_false. intros Hba.
  pose proof (F64_ltb_trans _ _ _ Hab Hba) as Haa.
  rewrite F64_ltb_irrefl in Haa. discriminate.
Qed.

(** X1. The boundaries cover [max].  For positive [min <= max] whose double
    does not overflow, the result is not empty, starts at [min], and its
    last boundary is not below [max] (while still below [2*max]). *)
Theorem exponentialDistribution_covers_max (min max : float64) :
  valid min = true -> valid max = true ->
  ltb zero min = true -> ltb zero max = true ->
  ltb max min = false ->
  is_finite (mul two max) = true ->
  exists (v : list float64) (l : float64),
    exponentialDistribution min max = Some v /\
    head v = Some min /\
    last v = Some l /\
    ltb l max = false /\
    ltb l (mul two max) = true.
Proof.
  intros Hv Hvmax Hpos Hposmax Hle Hfin.
  destruct (F64_pos_inv _ Hposmax) as [->|(mm & em & Hmax)]; [discriminate|].
  subst max.
  assert (Hmin2 : ltb min (mul two (S754_finite false mm em)) = true).
  { apply F64_le_lt_trans with (S754_finite false mm em); [|exact Hle|].
    - intros ->. discriminate.
    - rewrite F64_mul_two_comm. now apply F64_ltb_double. }
  destruct (exponentialDistribution_loop_fuel min (S754_finite false mm em) Hv Hpos)
    as (n & Hrun & Hkept & Hexit).
  destruct n as [|n].
  { change (doubled 0 min) with min in Hexit. congruence. }
  exists (map (fun k => doubled k min) (seq 0 (S n))), (doubled n min).
  destruct (Hkept n ltac:(lia)) as (Hl2 & Hvl & Hposl & Hfinl & _).
  split; [|split; [|split; [|split]]].
  - unfold exponentialDistribution. now rewrite (Hrun [] loopBound).
  - reflexivity.
  - rewrite seq_S, map_app. apply last_snoc.
  - rewrite doubled_succ in Hexit.
    destruct (F64_pos_inv _ Hposl) as [Heq|(ml & el & Heq)]; rewrite Heq in *;
      [discriminate|].
    apply not_true_is_false. intros Hlt.
    rewrite F64_mul_two_comm in Hexit, Hfin.
    destruct (F64_double_mono _ _ _ _ Hvl Hvmax Hlt) as [Hinf|Hlt2].
    + rewrite Hinf in Hfin. discriminate.
    + congruence.
  - exact Hl2.
Qed.

Lemma exponentialDistribution_covers_max_witness :
  exists (v : list float64) (l : float64),
    exponentialDistribution (of_Z 1) (of_Z 60000) = Some v /\
    head v = Some (of_Z 1) /\
    last v = Some l /\
    ltb l (of_Z 60000) = false /\
    ltb l (mul two (of_Z 60000)) = true.
Proof.
  apply (exponentialDistribution_covers_max (of_Z 1) (of_Z 60000)); reflexivity.
Defined.

(** X2. A larger [max] only adds boundaries: for positive [max < max'] the
    result for [max] is a prefix of the result for [max']. *)
Theorem exponentialDistribution_max_mono (min max max' : float64) :
  valid min = true -> valid max = true -> valid max' = true ->
  ltb zero min = true -> ltb zero max = true -> ltb max max' = true ->
  exists v v' : list float64,
    exponentialDistribution min max = Some v /\
    exponentialDistribution min max' = Some v' /\
    v `prefix_of` v'.
Proof.
  intros Hv Hvmax Hvmax' Hpos Hposmax Hlt.
  pose proof (F64_ltb_trans _ _ _ Hposmax Hlt) as Hposmax'.
  assert (Hnan : mul two max' <> S754_nan).
  { destruct (F64_two_mul_pos max' Hvmax' Hposmax') as [->|(m & e & ->)]; discriminate. }
  assert (Hle2 : ltb (mul two max') (mul two max) = false).
  { rewrite !F64_mul_two_comm.
    destruct (F64_pos_inv _ Hposmax') as [->|(m' & e' & ->)]; [apply F64_ltb_pinf_l|].
    destruct (F64_pos_inv _ Hposmax) as [->|(m & e & ->)];
      [rewrite F64_ltb_pinf_l in Hlt; discriminate|].
    destruct (F64_double_mono _ _ _ _ Hvmax Hvmax' Hlt) as [->|Hlt2];
      [apply F64_ltb_pinf_l | now apply F64_ltb_asym]. }
  destruct (exponentialDistribution_loop_fuel min max Hv Hpos) as (n & Hrun & Hkept & Hexit).
  destruct (exponentialDistribution_loop_fuel min max' Hv Hpos)
    as (n' & Hrun' & Hkept' & Hexit').
  exists (map (fun k => doubled k min) (seq 0 n)), (map (fun k => doubled k min) (seq 0 n')).
  split; [|split].
  - unfold exponentialDistribution. now rewrite (Hrun [] loopBound).
  - unfold exponentialDistribution. now rewrite (Hrun' [] loopBound).
  - assert (Hnn : (n <= n')%nat).
    { destruct (Nat.le_gt_cases n n') as [|Hgt]; [assumption|]. exfalso.
      destruct (Hkept n' Hgt) as (Hbelow & _).
      rewrite (F64_lt_le_trans _ _ _ Hnan Hbelow Hle2) in Hexit'. discriminate. }
    exists (map (fun k => doubled k min) (seq n (n' - n))).
    rewrite <- map_app, <- seq_app. do 2 f_equal. lia.
Qed.

Lemma exponentialDistribution_max_mono_witness :
  exists v v' : list float64,
    exponentialDistribution (of_Z 250) (of_Z 500) = Some v /\
    exponentialDistribution (of_Z 250) (of_Z 604800000) = Some v' /\
    v `prefix_of` v'.
Proof.
  apply (exponentialDistribution_max_mono (of_Z 250) (of_Z 500) (of_Z 604800000));
    reflexivity.
Defined.

(** X3. What the result is made of.  For every positive [min] there are at
    most 2098 boundaries, and each is a positive finite value of the
    machine type, not below [min] and below [2*max]. *)
Theorem exponentialDistribution_elements (min max : float64) :
  valid min = true -> ltb zero min = true ->
  exists v : list float64,
    exponentialDistribution min max = Some v /\
    (length v <= 2098)%nat /\
    Forall (fun x => valid x = true /\ is_finite x = true /\ ltb zero x = true /\
                     ltb x min = false /\ ltb x (mul two max) = true) v.
Proof.
  intros Hv Hpos.
  destruct (exponentialDistribution_loop_run 2098 min max Hv Hpos)
    as (n & Hn & Hrun & Hkept & Hexit).
  { destruct (F64_pos_inv _ Hpos) as [->|(m & e & ->)]; [now left|right].
    pose proof (F64_rank_bounds _ _ _ Hv). lia. }
  exists (map (fun k => doubled k min) (seq 0 n)). split; [|split].
  - unfold exponentialDistribution. rewrite (Hrun [] loopBound) by (unfold loopBound; lia).
    reflexivity.
  - now rewrite length_map, length_seq.
  - apply Forall_forall. intros x Hx.
    apply list_elem_of_In, in_map_iff in Hx as (i & <- & Hi). apply in_seq in Hi.
    destruct (Hkept i ltac:(lia)) as (H1 & H2 & H3 & H4 & _).
    repeat split; try assumption.
    destruct i as [|i]; [apply F64_ltb_irrefl|].
    apply F64_ltb_asym. change min with (doubled 0 min) at 1.
    apply (doubled_lt min n); auto; try lia.
    intros j Hj. now destruct (Hkept j Hj) as (_ & _ & _ & H & _).
Qed.

Lemma exponentialDistribution_elements_witness :
  exists v : list float64,
    exponentialDistribution (S754_finite false 1 (-1074)) pinf = Some v /\
    (length v <= 2098)%nat /\
    Forall (fun x => valid x = true /\ is_finite x = true /\ ltb zero x = true /\
                     ltb x (S754_finite false 1 (-1074)) = false /\
                     ltb x (mul two pinf) = true) v.
Proof.
  apply (exponentialDistribution_elements (S754_finite false 1 (-1074)) pinf); reflexivity.
Defined.


(** Doubling a value that is zero or negative gives one that is zero or
    negative. *)
Lemma F64_double_nonpos (d : float64) :
  valid d = true -> d <> S754_nan -> ltb zero d = false ->
  valid (mul d two) = true /\ mul d two <> S754_nan /\ ltb zero (mul d two) = false.
Proof.
  intros Hv Hnan Hnp. destruct d as [s|[]| |[] m e]; try discriminate; try congruence.
  - destruct s; repeat split; discriminate.
  - repeat split; discriminate.
  - rewrite (F64_mul_two_r _ _ _ Hv). apply F64_valid_finite_inv in Hv.
    destruct (Z.eqb_spec (Zpos (digits2_pos m)) 53) as [Hd|Hd];
      [destruct (Z.leb_spec (e + 1) 971)|];
      (split; [|split; [discriminate | reflexivity]]);
      try reflexivity; apply F64_valid_finite_intro;
      cbn [digits2_pos]; rewrite ?Pos2Z.inj_succ; lia.
Qed.

(** X4. Below zero or at zero the loop does not end.  For [min] zero or
    negative (and not NaN) and positive [max], the condition [d < 2*max]
    holds forever: whatever the fuel, no result is reached. *)
Theorem exponentialDistribution_nonpositive_diverges (min max : float64) :
  valid min = true -> min <> S754_nan -> ltb zero min = false ->
  valid max = true -> ltb zero max = true ->
  forall (fuel : nat) (v : list float64),
    exponentialDistribution_loop fuel min max v = None.
Proof.
  intros Hv Hnan Hnp Hvmax Hposmax fuel. revert min Hv Hnan Hnp.
  induction fuel as [|fuel IH]; intros d Hv Hnan Hnp v; [reflexivity|].
  cbn [exponentialDistribution_loop].
  assert (Hcond : ltb d (mul two max) = true).
  { destruct (F64_two_mul_pos max Hvmax Hposmax) as [->|(m & e & ->)];
      destruct d as [[]|[]| |[] md ed]; try discriminate; try congruence; reflexivity. }
  rewrite Hcond.
  destruct (F64_double_nonpos d Hv Hnan Hnp) as (Hv' & Hnan' & Hnp').
  now apply IH.
Qed.

Lemma exponentialDistribution_nonpositive_diverges_witness :
  exponentialDistribution_loop loopBound (of_Z (-250)) (of_Z 500) [] = None.
Proof.
  apply (exponentialDistribution_nonpositive_diverges (of_Z (-250)) (of_Z 500));
    [reflexivity | discriminate | reflexivity | reflexivity | reflexivity].
Defined.

Lemma exponentialDistribution_loop_nan_min (fuel : nat) (x : float64) (v : list float64) :
  exponentialDistribution_loop (S fuel) S754_nan x v = Some v.
Proof. reflexivity. Qed.

Lemma exponentialDistribution_loop_nan_max (fuel : nat) (x : float64) (v : list float64) :
  exponentialDistribution_loop (S fuel) x S754_nan v = Some v.
Proof.
  cbn [exponentialDistribution_loop].
  replace (ltb x (mul two S754_nan)) with false; [reflexivity|].
  destruct x as [[]|[]| |[] m e]; reflexivity.
Qed.

(** X5. NaN compares below nothing and nothing compares below NaN: with NaN
    as [min] or as [max] the result is empty. *)
Theorem exponentialDistribution_nan (x : float64) :
  exponentialDistribution S754_nan x = Some [] /\
  exponentialDistribution x S754_nan = Some [].
Proof.
  split.
  - exact (exponentialDistribution_loop_nan_min 2099 x []).
  - exact (exponentialDistribution_loop_nan_max 2099 x []).
Qed.

End BucketGeneratorMore.

(** ** More on the tagger and the recorders *)

Section TaggerMore.

Import swarm.

Lemma getDirection_nonempty (dir : network.Direction) : getDirection dir <> ""%string.
Proof. destruct dir; discriminate. Qed.

(** X6. [appendConnectionState] only appends.  The tags it is given stay as
    they are, in front; behind them come one to three mutators: transport
    first and always, then security, then muxer, each at most once and
    never with an empty value. *)
Theorem appendConnectionState_appends
    (tags : list tag.Mutator) (cs : network.ConnectionState) :
  exists added : list tag.Mutator,
    appendConnectionState tags cs = tags ++ added /\
    head (map mutatorKey added) = Some transportTag /\
    sublist (map mutatorKey added) [transportTag; securityTag; muxerTag] /\
    Forall (fun mu => mutatorValue mu <> ""%string) added.
Proof.
  unfold appendConnectionState.
  destruct (String.eqb_spec (network.Transport cs) "") as [Ht|Ht],
           (String.eqb_spec (network.Security cs) "") as [Hs|Hs],
           (String.eqb_spec (network.StreamMultiplexer cs) "") as [Hm|Hm];
    cbn [negb]; rewrite <- ?app_assoc; cbn [app];
    eexists; (split; [reflexivity|]); (split; [reflexivity|]);
    (split; [cbn [map mutatorKey];
             solve [repeat first [apply sublist_nil | apply sublist_skip | apply sublist_cons]]
            |]);
    repeat constructor; cbn [mutatorValue]; solve [assumption | discriminate].
Qed.

(** X7. Every recorder submits what the view of its measure declares.  Seen
    from the stub engine, each of the four recorders adds exactly one
    submission with one measurement, of the measure of its view in
    [DefaultViews]; the keys it sets are among the keys that view declares,
    in the same order, none twice, and no value is empty. *)
Theorem recorders_submit_declared_keys
    (dir : network.Direction) (t : time.Duration) (cs : network.ConnectionState)
    (reply : Submission -> option error) (log : list Submission) :
  exists durationView latencyView : view.View,
    DefaultViews = Some [connOpenView; connClosedView; durationView; latencyView] /\
    submitsFor connOpenView log
      (recordConnectionOpened (logEngine reply) dir cs log) /\
    submitsFor connClosedView log
      (recordConnectionClosed (logEngine reply) dir cs log) /\
    submitsFor durationView log
      (recordConnectionDuration (logEngine reply) dir t cs log) /\
    submitsFor latencyView log
      (recordHandshakeLatency (logEngine reply) t cs log).
Proof.
  do 2 eexists. split; [vm_compute; reflexivity|].
  pose proof (getDirection_nonempty dir) as Hdir.
  unfold submitsFor, recordConnectionOpened, recordConnectionClosed,
    recordConnectionDuration, recordHandshakeLatency, logEngine, appendConnectionState.
  destruct (String.eqb_spec (network.Transport cs) "") as [Ht|Ht],
           (String.eqb_spec (network.Security cs) "") as [Hs|Hs],
           (String.eqb_spec (network.StreamMultiplexer cs) "") as [Hm|Hm];
    cbn [negb app];
    repeat split;
    (do 2 eexists; split; [reflexivity|]; split; [reflexivity|]; split; [reflexivity|];
     cbn [sub_tags map mutatorKey view.TagKeys connOpenView connClosedView];
     split; [solve [repeat first [apply sublist_nil | apply sublist_skip | apply sublist_cons]]|];
     split; [repeat constructor; cbn [mutatorValue]; solve [assumption | discriminate]
            | reflexivity]).
Qed.

End TaggerMore.

(** ** More on the options *)

Section OptionsMore.

Import libp2pquic.

Lemma builtin_distinct :
  DisableReuseport <> DisableDraft29 /\ DisableReuseport <> WithMetrics /\
  DisableDraft29 <> WithMetrics.
Proof.
  repeat split; intros H;
    apply (f_equal (fun opt : Option =>
      opt {| disableReuseport := false; disableDraft29 := false; metrics := false |})) in H;
    discriminate.
Qed.

(** X8. Applying in two batches is applying at once: [apply (xs ++ ys)] is
    [apply xs] followed, if that returned nil, by [apply ys] on the
    configuration it left; an error of the first batch is the result. *)
Theorem apply_concat (xs ys : list Option) (cfg : config) :
  apply (xs ++ ys) cfg =
    match apply xs cfg with
    | (cfg', None) => apply ys cfg'
    | (cfg', Some e) => (cfg', Some e)
    end.
Proof.
  rewrite apply_app. destruct (apply xs cfg) as [cfg' [e|]]; reflexivity.
Qed.

(** X9. The three options of the package only ever switch a flag on.  A list
    made of them never fails, and afterwards a flag is on exactly if it was
    on before or its option is in the list. *)
Theorem apply_builtin (opts : list Option) (cfg : config) :
  Forall (fun opt => opt = DisableReuseport \/ opt = DisableDraft29 \/ opt = WithMetrics)
         opts ->
  snd (apply opts cfg) = None /\
  (disableReuseport (fst (apply opts cfg)) = true <->
     disableReuseport cfg = true \/ DisableReuseport ∈ opts) /\
  (disableDraft29 (fst (apply opts cfg)) = true <->
     disableDraft29 cfg = true \/ DisableDraft29 ∈ opts) /\
  (metrics (fst (apply opts cfg)) = true <->
     metrics cfg = true \/ WithMetrics ∈ opts).
Proof.
  destruct builtin_distinct as (Hrd & Hrm & Hdm).
  intros Hall. revert cfg.
  induction Hall as [|opt opts Hopt _ IH]; intros cfg.
  - cbn. rewrite !elem_of_nil. tauto.
  - destruct (IH (fst (opt cfg))) as (IHe & IHr & IHd & IHm).
    assert (Happ : apply (opt :: opts) cfg = apply opts (fst (opt cfg)))
      by (destruct Hopt as [->|[->| ->]]; reflexivity).
    rewrite Happ, IHr, IHd, IHm, !elem_of_cons.
    split; [exact IHe|].
    destruct Hopt as [->|[->| ->]]; cbn; intuition congruence.
Qed.

Lemma apply_builtin_witness :
  snd (apply [WithMetrics; DisableReuseport]
         {| disableReuseport := false; disableDraft29 := true; metrics := false |}) = None /\
  (disableReuseport (fst (apply [WithMetrics; DisableReuseport]
         {| disableReuseport := false; disableDraft29 := true; metrics := false |})) = true <->
     disableReuseport
       {| disableReuseport := false; disableDraft29 := true; metrics := false |} = true \/
     DisableReuseport ∈ [WithMetrics; DisableReuseport]) /\
  (disableDraft29 (fst (apply [WithMetrics; DisableReuseport]
         {| disableReuseport := false; disableDraft29 := true; metrics := false |})) = true <->
     disableDraft29
       {| disableReuseport := false; disableDraft29 := true; metrics := false |} = true \/
     DisableDraft29 ∈ [WithMetrics; DisableReuseport]) /\
  (metrics (fst (apply [WithMetrics; DisableReuseport]
         {| disableReuseport := false; disableDraft29 := true; metrics := false |})) = true <->
     metrics
       {| disableReuseport := false; disableDraft29 := true; metrics := false |} = true \/
     WithMetrics ∈ [WithMetrics; DisableReuseport]).
Proof.
  apply (apply_builtin [WithMetrics; DisableReuseport]
           {| disableReuseport := false; disableDraft29 := true; metrics := false |}).
  repeat first [apply Forall_nil_2 | apply Forall_cons_2; [auto 6|]].
Defined.

(** X10. The order of the package's options does not matter: any rearrangement
    of a list made of them gives the same configuration (and nil). *)
Theorem apply_builtin_permutation (opts opts' : list Option) (cfg : config) :
  Forall (fun opt => opt = DisableReuseport \/ opt = DisableDraft29 \/ opt = WithMetrics)
         opts ->
  Permutation opts opts' ->
  apply opts cfg = apply opts' cfg.
Proof.
  intros Hall Hperm. revert cfg Hall.
  induction Hperm as [|opt l l' Hperm IH|x y l|l l' l'' H1 IH1 H2 IH2]; intros cfg Hall.
  - reflexivity.
  - apply Forall_cons in Hall as [Hopt Hall].
    destruct Hopt as [->|[->| ->]]; cbn [apply DisableReuseport DisableDraft29 WithMetrics];
      now apply IH.
  - apply Forall_cons in Hall as [Hy Hall]. apply Forall_cons in Hall as [Hx Hall].
    destruct Hx as [->|[->| ->]], Hy as [->|[->| ->]]; reflexivity.
  - rewrite IH1 by assumption. apply IH2. now rewrite <- H1.
Qed.

Lemma apply_builtin_permutation_witness :
  apply [DisableReuseport; DisableDraft29; WithMetrics]
        {| disableReuseport := false; disableDraft29 := false; metrics := false |} =
  apply [WithMetrics; DisableReuseport; DisableDraft29]
        {| disableReuseport := false; disableDraft29 := false; metrics := false |}.
Proof.
  apply (apply_builtin_permutation
           [DisableReuseport; DisableDraft29; WithMetrics]
           [WithMetrics; DisableReuseport; DisableDraft29]).
  - repeat first [apply Forall_nil_2 | apply Forall_cons_2; [auto 6|]].
  - apply Permutation_sym, (Permutation_cons_app [DisableReuseport; DisableDraft29] []).
    reflexivity.
Defined.


(** X11. Where the result of [apply] comes from.  If [apply] returns nil, every
    option has run and the configuration is what they made of it in order.
    If it returns an error, the list splits at the option that returned
    it: the options before ran without error, that option was given the
    configuration they left, and what it left and returned is the result;
    [apply] never fails otherwise. *)
Theorem apply_outcome (opts : list Option) (cfg : config) :
  match snd (apply opts cfg) with
  | None => fst (apply opts cfg) = applied opts cfg
  | Some e =>
      exists (pre : list Option) (opt : Option) (post : list Option),
        opts = pre ++ opt :: post /\
        apply pre cfg = (applied pre cfg, None) /\
        opt (applied pre cfg) = (fst (apply opts cfg), Some e)
  end.
Proof.
  revert cfg. induction opts as [|opt opts IH]; intros cfg; [reflexivity|].
  cbn [apply]. destruct (opt cfg) as [cfg' [e|]] eqn:Hopt.
  - exists [], opt, opts. cbn. auto.
  - specialize (IH cfg'). unfold applied. cbn [foldl]. rewrite Hopt. cbn [fst].
    fold (applied opts cfg').
    destruct (snd (apply opts cfg')) as [e|]; [|exact IH].
    destruct IH as (pre & bad & post & -> & Hpre & Hbad).
    exists (opt :: pre), bad, post. split; [reflexivity|].
    unfold applied. cbn [apply foldl]. rewrite Hopt. cbn [fst].
    fold (applied pre cfg'). auto.
Qed.

End OptionsMore.
